(** * langfun: Python code execution (langfun/core/coding/python/execution.py)

    A shallow embedding of the execution module: the thread-local stack of
    symbol contexts ([context], [get_context]), the evaluation engine
    ([run]) and the process-isolated runner ([sandbox_call],
    [sandbox_run]).

    The module calls Python built-ins ([exec], [eval], [compile]), pyglove
    helpers and the [multiprocessing] library.  Their behaviour is written
    out below for a fragment of Python that is large enough to run the
    programs the engine distinguishes: name bindings, integer and string
    arithmetic, assignment expressions, conditionals and loops. *)

From Stdlib Require Import ZArith List String Ascii Bool Lia DecimalString.
Import ListNotations.
Set Warnings "-register-all".
Open Scope string_scope.
Open Scope Z_scope.

(** ** Python values and exceptions *)

Inductive value : Type :=
| VNone
| VBool (b : bool)
| VInt (n : Z)
| VStr (s : string).

(** Exceptions are data: the class and the message, and for langfun's
    [errors.CodeError] the code and the cause it is constructed from. *)
Inductive exn : Type :=
| NameError (msg : string)
| TypeError (msg : string)
| ZeroDivisionError (msg : string)
| IndexError (msg : string)
| SyntaxError (msg : string)
| ValueError (msg : string)
| TimeoutError (msg : string)
| CodeError (code : string) (cause : exn).

(** A Python call either raises or returns. *)
Definition outcome (A : Type) : Type := (exn + A)%type.

Definition value_eqb (a b : value) : bool :=
  match a, b with
  | VNone, VNone => true
  | VBool x, VBool y => Bool.eqb x y
  | VInt x, VInt y => Z.eqb x y
  | VStr x, VStr y => String.eqb x y
  | _, _ => false
  end.

(** ** Dictionaries

    A Python [dict] keeps its keys in insertion order, and
    [list(d.values())[-1]] in [run] observes that order: a dictionary is an
    association list with unique keys, oldest key first. *)
Module Dict.

Definition t : Type := list (string * value).

Definition empty : t := [].

Fixpoint get (d : t) (k : string) : option value :=
  match d with
  | [] => None
  | (k', v) :: r => if String.eqb k' k then Some v else get r k
  end.

Definition mem (d : t) (k : string) : bool :=
  match get d k with Some _ => true | None => false end.

(** [d[k] = v]: an existing key keeps its position, a new key goes last. *)
Fixpoint set (d : t) (k : string) (v : value) : t :=
  match d with
  | [] => [(k, v)]
  | (k', v') :: r =>
      if String.eqb k' k then (k', v) :: r else (k', v') :: set r k v
  end.

(** [d.update(kw)] *)
Definition update (d kw : t) : t :=
  fold_left (fun acc kv => set acc (fst kv) (snd kv)) kw d.

(** [for k in ks: d[k] = v] *)
Definition set_all (d : t) (ks : list string) (v : value) : t :=
  fold_left (fun acc k => set acc k v) ks d.

Definition keys (d : t) : list string := map fst d.

Definition values (d : t) : list value := map snd d.

(** Python's [d1 == d2]: the same keys with the same values, in any
    order. *)
Definition eqb (d1 d2 : t) : bool :=
  Nat.eqb (List.length d1) (List.length d2)
  && forallb (fun kv =>
       match get d2 (fst kv) with
       | Some v => value_eqb (snd kv) v
       | None => false
       end) d1.

End Dict.

Abbreviation dict := Dict.t.

(** [l[-1]] on a list: [None] stands for the [IndexError] of an empty
    list. *)
Fixpoint last_item {A : Type} (l : list A) : option A :=
  match l with
  | [] => None
  | [x] => Some x
  | _ :: r => last_item r
  end.

(** ** Program trees (the [ast] nodes the engine meets) *)

Inductive operator : Type := Add | Sub | FloorDiv.

Inductive cmpop : Type := Eq | Lt.

Inductive expr : Type :=
| Constant (value : value)
| Name (id : string)
| BinOp (left : expr) (op : operator) (right : expr)
| Compare (left : expr) (op : cmpop) (right : expr)
| NamedExpr (target : string) (value : expr).

(** Statements.  Assignment targets are plain names ([ast.Name] nodes,
    kept by their [id]). *)
Inductive stmt : Type :=
| Expr (value : expr)
| Assign (targets : list string) (value : expr)
| AugAssign (target : string) (op : operator) (value : expr)
| Pass
| If (test : expr) (body orelse : list stmt)
| While (test : expr) (body : list stmt).

(** [hasattr(node, 'value')] *)
Definition has_value (s : stmt) : bool :=
  match s with
  | Expr _ | Assign _ _ | AugAssign _ _ _ => true
  | Pass | If _ _ _ | While _ _ => false
  end.

(** [node.value], for the nodes that have the field. *)
Definition value_of (s : stmt) : option expr :=
  match s with
  | Expr e | Assign _ e | AugAssign _ _ e => Some e
  | Pass | If _ _ _ | While _ _ => None
  end.

(** ** The built-ins [eval] and [exec] on this fragment *)

Definition type_name (v : value) : string :=
  match v with
  | VNone => "NoneType"
  | VBool _ => "bool"
  | VInt _ => "int"
  | VStr _ => "str"
  end.

(** [bool] is a subclass of [int]. *)
Definition as_int (v : value) : option Z :=
  match v with
  | VInt n => Some n
  | VBool b => Some (if b then 1 else 0)
  | _ => None
  end.

Definition truthy (v : value) : bool :=
  match v with
  | VNone => false
  | VBool b => b
  | VInt n => negb (Z.eqb n 0)
  | VStr s => negb (String.eqb s "")
  end.

Definition op_symbol (op : operator) : string :=
  match op with Add => "+" | Sub => "-" | FloorDiv => "//" end.

Definition unsupported (sym : string) (a b : value) : exn :=
  TypeError ("unsupported operand type(s) for " ++ sym ++ ": '"
             ++ type_name a ++ "' and '" ++ type_name b ++ "'").

Definition binop (op : operator) (a b : value) : outcome value :=
  match op, a, b with
  | Add, VStr x, VStr y => inr (VStr (x ++ y))
  | _, _, _ =>
      match as_int a, as_int b with
      | Some x, Some y =>
          match op with
          | Add => inr (VInt (x + y))
          | Sub => inr (VInt (x - y))
          | FloorDiv =>
              if Z.eqb y 0
              then inl (ZeroDivisionError "integer division or modulo by zero")
              else inr (VInt (x / y))
          end
      | _, _ => inl (unsupported (op_symbol op) a b)
      end
  end.

Definition compare (op : cmpop) (a b : value) : outcome value :=
  match op with
  | Eq =>
      match as_int a, as_int b with
      | Some x, Some y => inr (VBool (Z.eqb x y))
      | _, _ => inr (VBool (value_eqb a b))
      end
  | Lt =>
      match as_int a, as_int b with
      | Some x, Some y => inr (VBool (Z.ltb x y))
      | _, _ =>
          match a, b with
          | VStr x, VStr y => inr (VBool (String.ltb x y))
          | _, _ =>
              inl (TypeError ("'<' not supported between instances of '"
                              ++ type_name a ++ "' and '" ++ type_name b ++ "'"))
          end
      end
  end.

(** Name lookup at module level: the local mapping, then the global one. *)
Definition load_name (id : string) (global_vars local_vars : dict)
  : outcome value :=
  match Dict.get local_vars id with
  | Some v => inr v
  | None =>
      match Dict.get global_vars id with
      | Some v => inr v
      | None => inl (NameError ("name '" ++ id ++ "' is not defined"))
      end
  end.

(** [eval(compile(ast.Expression(e), '', mode='eval'), global_vars,
    local_vars)].  An assignment expression stores into the local mapping,
    so the mapping is threaded through. *)
Fixpoint py_eval (e : expr) (global_vars local_vars : dict)
  : outcome (value * dict) :=
  match e with
  | Constant v => inr (v, local_vars)
  | Name id =>
      match load_name id global_vars local_vars with
      | inl x => inl x
      | inr v => inr (v, local_vars)
      end
  | BinOp a op b =>
      match py_eval a global_vars local_vars with
      | inl x => inl x
      | inr (va, l1) =>
          match py_eval b global_vars l1 with
          | inl x => inl x
          | inr (vb, l2) =>
              match binop op va vb with
              | inl x => inl x
              | inr v => inr (v, l2)
              end
          end
      end
  | Compare a op b =>
      match py_eval a global_vars local_vars with
      | inl x => inl x
      | inr (va, l1) =>
          match py_eval b global_vars l1 with
          | inl x => inl x
          | inr (vb, l2) =>
              match compare op va vb with
              | inl x => inl x
              | inr v => inr (v, l2)
              end
          end
      end
  | NamedExpr target e1 =>
      match py_eval e1 global_vars local_vars with
      | inl x => inl x
      | inr (v, l1) => inr (v, Dict.set l1 target v)
      end
  end.

(** Whether evaluating [e] may store into the name [x]. *)
Fixpoint assigns (e : expr) (x : string) : bool :=
  match e with
  | Constant _ | Name _ => false
  | BinOp a _ b | Compare a _ b => assigns a x || assigns b x
  | NamedExpr target e1 => String.eqb target x || assigns e1 x
  end.

(** [exec(compile(module, '', mode='exec'), global_vars, local_vars)] on a
    list of statements.  A loop may run forever: the interpreter takes a
    bound on the number of statements it may start, and returns [None]
    when the program has not finished within it.  Stores go to the local
    mapping; the fragment has no [global] statement, so the global mapping
    is only read. *)
Fixpoint py_exec (fuel : nat) (body : list stmt) (global_vars local_vars : dict)
  {struct fuel} : option (outcome dict) :=
  match body with
  | [] => Some (inr local_vars)
  | s :: rest =>
      match fuel with
      | O => None
      | S fuel' =>
          match s with
          | Pass => py_exec fuel' rest global_vars local_vars
          | Expr e =>
              match py_eval e global_vars local_vars with
              | inl x => Some (inl x)
              | inr (_, l1) => py_exec fuel' rest global_vars l1
              end
          | Assign targets e =>
              match py_eval e global_vars local_vars with
              | inl x => Some (inl x)
              | inr (v, l1) =>
                  py_exec fuel' rest global_vars (Dict.set_all l1 targets v)
              end
          | AugAssign target op e =>
              match load_name target global_vars local_vars with
              | inl x => Some (inl x)
              | inr old =>
                  match py_eval e global_vars local_vars with
                  | inl x => Some (inl x)
                  | inr (v, l1) =>
                      match binop op old v with
                      | inl x => Some (inl x)
                      | inr new => py_exec fuel' rest global_vars (Dict.set l1 target new)
                      end
                  end
              end
          | If test body1 orelse =>
              match py_eval test global_vars local_vars with
              | inl x => Some (inl x)
              | inr (c, l1) =>
                  py_exec fuel' ((if truthy c then body1 else orelse) ++ rest)%list
                          global_vars l1
              end
          | While test body1 =>
              match py_eval test global_vars local_vars with
              | inl x => Some (inl x)
              | inr (c, l1) =>
                  if truthy c
                  then py_exec fuel' (body1 ++ s :: rest)%list global_vars l1
                  else py_exec fuel' rest global_vars l1
              end
          end
      end
  end.

(** ** Thread-local storage

    pyglove's [object_utils.thread_local_get], [thread_local_push] and
    [thread_local_pop], for the one key the module uses
    ([_TLS_CODE_RUN_CONTEXT]): the store is either unset or holds a stack
    of frames, bottom frame first. *)
Definition tls : Type := option (list dict).

Definition thread_local_get (st : tls) : option (list dict) := st.

Definition thread_local_push (st : tls) (v : dict) : tls :=
  match thread_local_get st with
  | None => Some [v]
  | Some stack => Some (stack ++ [v])%list
  end.

(** Popping a missing or empty stack raises. *)
Definition thread_local_pop (st : tls) : outcome tls :=
  match thread_local_get st with
  | Some ((_ :: _) as stack) => inr (Some (removelast stack))
  | _ => inl (IndexError "pop from empty list")
  end.

Definition stack_of (st : tls) : list dict :=
  match st with Some stack => stack | None => [] end.

(** ** Context store *)

Definition RESULT_KEY : string := "__result__".

(** [get_context()]: a copy of the top frame, or an empty dict. *)
Definition get_context (st : tls) : dict :=
  match thread_local_get st with
  | Some stack =>
      match last_item stack with
      | Some top => top
      | None => Dict.empty
      end
  | None => Dict.empty
  end.

(** [with context(kwargs...) as ctx: body].  The yielded [ctx] is the
    object that was pushed: the body holds an alias of the top frame, which
    in this model is the top frame of the store the body receives and may
    rewrite.  The [finally] clause pops whether the body returned or
    raised. *)
Definition context {A : Type} (kwargs : dict)
  (body : dict -> tls -> outcome A * tls) (st : tls) : outcome A * tls :=
  let ctx := Dict.update (get_context st) kwargs in
  let st1 := thread_local_push st ctx in
  let '(r, st2) := body ctx st1 in
  match thread_local_pop st2 with
  | inr st3 => (r, st3)
  | inl e => (inl e, st2)
  end.

(** What a [with] body may do to the store: the frames beneath its own stay
    as they are and every frame it pushes is popped again; its own frame it
    may rewrite through the alias. *)
Definition keeps_frames_below {A : Type}
  (body : dict -> tls -> outcome A * tls) : Prop :=
  forall ctx below top,
    exists top', stack_of (snd (body ctx (Some (below ++ [top])%list)))
                 = (below ++ [top'])%list.

(** ** Evaluation engine *)

Section Engine.

(** The collaborators that live in other modules: the permission type
    with the ambient default ([permissions.get_permission()]) and the
    parser ([parsing.PythonCodeParser().parse]), which returns the
    cleaned-up code together with the program tree, or raises. *)
Variable permission : Type.
Variable get_permission : permission.
Variable parse : string -> permission -> outcome (string * list stmt).

(** [perm or permissions.get_permission()] *)
Definition effective_permission (perm : option permission) : permission :=
  match perm with Some p => p | None => get_permission end.

(** [run(code, perm, kwargs...)].  [fuel] bounds the statements [exec] may
    start; [None] means the program is still running. *)
Definition run (fuel : nat) (st : tls) (code : string)
  (perm : option permission) (kwargs : dict) : option (outcome dict) :=
  let perm := effective_permission perm in
  let ctx := Dict.update (get_context st) kwargs in
  match parse code perm with
  | inl e => Some (inl e)
  | inr (code, code_block) =>
      let global_vars := ctx in
      let local_vars := Dict.empty in
      match last_item code_block with
      | None => Some (inl (IndexError "list index out of range"))
      | Some last_stmt =>
          (* [hasattr(last, 'value')] and [last.value] in one match *)
          match value_of last_stmt with
          | Some last_expr =>
              let code_block := removelast code_block in
              let result_vars :=
                RESULT_KEY ::
                match last_stmt with
                | Assign targets _ => targets
                | _ => []
                end in
              match py_exec fuel code_block global_vars local_vars with
              | None => None
              | Some (inl e) => Some (inl (CodeError code e))
              | Some (inr local_vars) =>
                  match py_eval last_expr global_vars local_vars with
                  | inl e => Some (inl (CodeError code e))
                  | inr (result, local_vars) =>
                      Some (inr (Dict.set_all local_vars result_vars result))
                  end
              end
          | None =>
              match py_exec fuel code_block global_vars local_vars with
              | None => None
              | Some (inl e) => Some (inl (CodeError code e))
              | Some (inr local_vars) =>
                  match last_item (Dict.values local_vars) with
                  | None => Some (inl (IndexError "list index out of range"))
                  | Some v => Some (inr (Dict.set local_vars RESULT_KEY v))
                  end
              end
          end
      end
  end.

End Engine.

Arguments effective_permission {permission} get_permission perm.
Arguments run {permission} get_permission parse fuel st code perm kwargs.

(** The globals [run] gives the program: the current context overridden by
    the keyword arguments. *)
Definition ambient (st : tls) (kwargs : dict) : dict :=
  Dict.update (get_context st) kwargs.

(** ** Isolation runner

    [multiprocessing] in discrete time, for a worker that is forked.  A
    callable is given by what it has produced after [t] units of time:
    [None] while it is still running, afterwards the exception it raised or
    the value it returned.  The same unit measures the timeout. *)
Definition callable (R : Type) : Type := nat -> option (outcome R).

(** What travels over the queue: the JSON text of the result, or the
    exception object ([isinstance(x, Exception)] tells them apart). *)
Inductive message : Type :=
| MsgJson (s : string)
| MsgExn (e : exn).

(** The text an exception carries. *)
Fixpoint exn_length (e : exn) : nat :=
  match e with
  | NameError msg | TypeError msg | ZeroDivisionError msg | IndexError msg
  | SyntaxError msg | ValueError msg | TimeoutError msg => String.length msg
  | CodeError code cause => String.length code + exn_length cause
  end.

(** The text a message carries; its pickled form is at least that long. *)
Definition message_length (m : message) : nat :=
  match m with
  | MsgJson s => String.length s
  | MsgExn e => exn_length e
  end.

Inductive status : Type := Initial | Started | Stopped | Terminated.

(** A [multiprocessing.Process] with the [multiprocessing.Queue] its target
    writes to. *)
Record process : Type := mkProcess {
  target : nat -> option message;
  state : status;
  queue : list message
}.

Definition Process (target : nat -> option message) : process :=
  mkProcess target Initial [].

Definition start (p : process) : process :=
  mkProcess (target p) Started (queue p).

(** Whether the worker has exited after [t] units of time, and with which
    message on the queue.  A process that has put a message on a queue
    joins the queue's feeder thread before it exits, so it exits only once
    the message has gone into the queue's pipe (the multiprocessing
    guidelines, Joining processes that use queues), and a pipe nobody reads
    from takes [pipe_capacity] characters: with a longer message the worker
    stays alive until the message is read. *)
Definition exited (pipe_capacity : nat) (p : process) (t : nat)
  : option message :=
  match target p t with
  | Some m => if Nat.leb (message_length m) pipe_capacity then Some m else None
  | None => None
  end.

(** [p.join(timeout)].  With a timeout the call comes back after that long
    at the latest.  Without one it comes back only once the worker has
    exited: [patience] is how long the caller is observed, and [None] says
    it is still blocked. *)
Definition join (pipe_capacity : nat) (p : process) (timeout : option Z)
  (patience : nat) : option process :=
  match timeout with
  | Some secs =>
      match exited pipe_capacity p (Z.to_nat secs) with
      | Some m => Some (mkProcess (target p) Stopped (queue p ++ [m])%list)
      | None => Some p
      end
  | None =>
      match exited pipe_capacity p patience with
      | Some m => Some (mkProcess (target p) Stopped (queue p ++ [m])%list)
      | None => None
      end
  end.

Definition is_alive (p : process) : bool :=
  match state p with Started => true | _ => false end.

Definition terminate (p : process) : process :=
  mkProcess (target p) Terminated (queue p).

(** [q.get()] blocks on an empty queue. *)
Definition queue_get (p : process) : option message :=
  match queue p with
  | m :: _ => Some m
  | [] => None
  end.

(** [str(n)] for an int *)
Definition string_of_Z (n : Z) : string :=
  NilZero.string_of_int (Z.to_int n).

(** The [{timeout}] field of the f-string *)
Definition format_timeout (timeout : option Z) : string :=
  match timeout with
  | Some secs => string_of_Z secs
  | None => "None"
  end.

Section Sandbox.

(** The capacity of the queue's pipe, the result type of the callable and
    pyglove's JSON conversion for it. *)
Variable pipe_capacity : nat.
Variable R : Type.
Variable to_json_str : R -> outcome string.
Variable from_json_str : string -> outcome R.

(** The nested function [_call]: what the worker puts on the queue. *)
Definition _call (func : callable R) : nat -> option message :=
  fun t =>
    match func t with
    | None => None
    | Some (inl e) => Some (MsgExn e)
    | Some (inr v) =>
        match to_json_str v with
        | inl e => Some (MsgExn e)
        | inr s => Some (MsgJson s)
        end
    end.

(** [sandbox_call(func, *args, timeout=timeout, **kwargs)], with the
    arguments already applied to [func].  The result comes with the state
    of the worker process as the call leaves it; [None] means the call has
    not come back. *)
Definition sandbox_call (func : callable R) (timeout : option Z)
  (patience : nat) : option (outcome R * status) :=
  let p := Process (_call func) in
  let p := start p in
  match join pipe_capacity p timeout patience with
  | None => None
  | Some p =>
      if is_alive p then
        let p := terminate p in
        Some (inl (TimeoutError ("Execution time exceed "
                                 ++ format_timeout timeout ++ " seconds.")),
              state p)
      else
        match queue_get p with
        | None => None
        | Some (MsgExn e) => Some (inl e, state p)
        | Some (MsgJson x) => Some (from_json_str x, state p)
        end
  end.

End Sandbox.

Arguments _call {R} to_json_str func _.
Arguments sandbox_call pipe_capacity {R} to_json_str from_json_str
  func timeout patience.

Section SandboxRun.

Variable permission : Type.
Variable get_permission : permission.
Variable parse : string -> permission -> outcome (string * list stmt).
Variable pipe_capacity : nat.
Variable to_json_str : dict -> outcome string.
Variable from_json_str : string -> outcome dict.

Definition value_of_timeout (timeout : option Z) : value :=
  match timeout with
  | Some secs => VInt secs
  | None => VNone
  end.

(** [sandbox_run(code, perm, timeout, kwargs...)], which is
    [sandbox_call(run, code, perm, time=timeout, kwargs...)]: the timeout
    is handed on under the keyword [time], so it joins the keyword
    arguments of [run] and the [timeout] of [sandbox_call] keeps its
    default.  A repeated keyword is a [TypeError] at the call, before any
    process exists.  The worker starts from the caller's thread-local
    store [st]. *)
Definition sandbox_run (st : tls) (code : string) (perm : option permission)
  (timeout : option Z) (kwargs : dict) (patience : nat)
  : option (outcome dict * status) :=
  if Dict.mem kwargs "time" then
    Some (inl (TypeError
                 "sandbox_call() got multiple values for keyword argument 'time'"),
          Initial)
  else if Dict.mem kwargs "func" then
    Some (inl (TypeError
                 "sandbox_call() got multiple values for argument 'func'"),
          Initial)
  else
    let kwargs := ("time", value_of_timeout timeout) :: kwargs in
    sandbox_call pipe_capacity to_json_str from_json_str
      (fun t => run get_permission parse t st code perm kwargs)
      None patience.

End SandboxRun.

Arguments sandbox_run {permission} get_permission parse pipe_capacity
  to_json_str from_json_str st code perm timeout kwargs patience.

(** ** Sample collaborators

    Instances of the collaborators for running the engine on concrete
    programs. *)

Definition nl : string := String (ascii_of_nat 10) EmptyString.

Definition fence : string := "```".

(** A finite excerpt of the parser: for each source text, the cleaned-up
    code and the tree ([ast.parse] on that code).  The last entry is model
    output wrapped in a Markdown code fence, which the parser unwraps. *)
Definition sample_programs : list (string * (string * list stmt)) :=
  [ ("a = 1" ++ nl ++ "a + 2",
     ("a = 1" ++ nl ++ "a + 2",
      [Assign ["a"] (Constant (VInt 1));
       Expr (BinOp (Name "a") Add (Constant (VInt 2)))]));
    ("x = 5",
     ("x = 5", [Assign ["x"] (Constant (VInt 5))]));
    ("x = y = 5",
     ("x = y = 5", [Assign ["x"; "y"] (Constant (VInt 5))]));
    ("pass",
     ("pass", [Pass]));
    ("while True: pass",
     ("while True: pass", [While (Constant (VBool true)) [Pass]]));
    ("i = 0" ++ nl ++ "j = 7" ++ nl ++ "while i < 3: i += 1",
     ("i = 0" ++ nl ++ "j = 7" ++ nl ++ "while i < 3: i += 1",
      [Assign ["i"] (Constant (VInt 0));
       Assign ["j"] (Constant (VInt 7));
       While (Compare (Name "i") Lt (Constant (VInt 3)))
             [AugAssign "i" Add (Constant (VInt 1))]]));
    ("x = 1" ++ nl ++ "x += 5",
     ("x = 1" ++ nl ++ "x += 5",
      [Assign ["x"] (Constant (VInt 1));
       AugAssign "x" Add (Constant (VInt 5))]));
    ("__result__ = 1" ++ nl ++ "__result__ += 5",
     ("__result__ = 1" ++ nl ++ "__result__ += 5",
      [Assign ["__result__"] (Constant (VInt 1));
       AugAssign "__result__" Add (Constant (VInt 5))]));
    ("x = 1" ++ nl ++ "x += (x := 5)",
     ("x = 1" ++ nl ++ "x += (x := 5)",
      [Assign ["x"] (Constant (VInt 1));
       AugAssign "x" Add (NamedExpr "x" (Constant (VInt 5)))]));
    ("time",
     ("time", [Expr (Name "time")]));
    ("1 // 0",
     ("1 // 0", [Expr (BinOp (Constant (VInt 1)) FloorDiv (Constant (VInt 0)))]));
    (fence ++ "python" ++ nl ++ "1 // 0" ++ nl ++ fence,
     ("1 // 0", [Expr (BinOp (Constant (VInt 1)) FloorDiv (Constant (VInt 0)))]))
  ].

Fixpoint lookup_program (code : string)
  (table : list (string * (string * list stmt))) : option (string * list stmt) :=
  match table with
  | [] => None
  | (src, r) :: rest => if String.eqb src code then Some r else lookup_program code rest
  end.

Definition parse_sample (code : string) (perm : unit)
  : outcome (string * list stmt) :=
  match lookup_program code sample_programs with
  | Some r => inr r
  | None => inl (SyntaxError "invalid syntax")
  end.

(** The default capacity of a pipe on Linux, in bytes. *)
Definition PIPE_BUF_SIZE : nat := Z.to_nat 65536.

(** JSON conversion for callables that return an int: the decimal
    numeral. *)
Definition int_to_json_str (n : Z) : outcome string := inr (string_of_Z n).

Definition int_from_json_str (s : string) : outcome Z :=
  match NilZero.int_of_string s with
  | Some i => inr (Z.of_int i)
  | None => inl (ValueError "Expecting value")
  end.

(** A callable that returns [v] at once, and one that raises [e] at
    once. *)
Definition returns {R : Type} (v : R) : callable R :=
  fun _ => Some (inr v).

Definition raises {R : Type} (e : exn) : callable R :=
  fun _ => Some (inl e).

(** [lambda: 1/0] *)
Definition divides_by_zero : callable Z :=
  raises (ZeroDivisionError "division by zero").

(** A callable that returns [v] after [d] units of time. *)
Definition returns_after (d : nat) (v : Z) : callable Z :=
  fun t => if Nat.leb d t then Some (inr v) else None.

(** A callable that never returns. *)
Definition never_returns : callable Z := fun _ => None.

(** ['x' * n] *)
Fixpoint repeat_string (n : nat) (c : string) : string :=
  match n with
  | O => EmptyString
  | S n' => c ++ repeat_string n' c
  end.

(** JSON conversion for callables that return a string of plain letters:
    the string between double quotes. *)
Definition quote : string := String (ascii_of_nat 34) EmptyString.

Definition str_to_json_str (s : string) : outcome string :=
  inr (quote ++ s ++ quote).

(** A [with] body that writes through the alias it was yielded and then
    raises. *)
Definition body_sets_then_raises (ctx : dict) (st : tls) : outcome value * tls :=
  match st with
  | Some stack =>
      match last_item stack with
      | Some top =>
          (inl (ValueError "x"),
           Some (removelast stack ++ [Dict.set top "b" (VInt 2)])%list)
      | None => (inl (ValueError "x"), st)
      end
  | None => (inl (ValueError "x"), st)
  end.

(** ** Names a program may bind *)

(** The names evaluating [e] may store into: the targets of its assignment
    expressions. *)
Fixpoint expr_stores (e : expr) : list string :=
  match e with
  | Constant _ | Name _ => []
  | BinOp a _ b | Compare a _ b => (expr_stores a ++ expr_stores b)%list
  | NamedExpr target e1 => target :: expr_stores e1
  end.

(** The names executing [s] may store into. *)
Fixpoint stmt_stores (s : stmt) : list string :=
  match s with
  | Expr e => expr_stores e
  | Assign targets e => (targets ++ expr_stores e)%list
  | AugAssign target _ e => target :: expr_stores e
  | Pass => []
  | If test body1 orelse =>
      (expr_stores test ++ flat_map stmt_stores body1
       ++ flat_map stmt_stores orelse)%list
  | While test body1 => (expr_stores test ++ flat_map stmt_stores body1)%list
  end.

Definition stores (body : list stmt) : list string :=
  flat_map stmt_stores body.

(** ** A sample JSON conversion for binding maps

    [pg.to_json_str] and [pg.from_json_str] on a dict of scalars whose
    strings hold plain characters: the text [{"k": v, ...}]. *)













(** Further sources for the sample parser: the empty source, a bare name
    and a program of three statements. *)
Definition more_programs : list (string * (string * list stmt)) :=
  [ ("", ("", []));
    ("a", ("a", [Expr (Name "a")]));
    ("a = 1" ++ nl ++ "b = (c := a + 1)" ++ nl ++ "b - 5",
     ("a = 1" ++ nl ++ "b = (c := a + 1)" ++ nl ++ "b - 5",
      [Assign ["a"] (Constant (VInt 1));
       Assign ["b"] (NamedExpr "c" (BinOp (Name "a") Add (Constant (VInt 1))));
       Expr (BinOp (Name "b") Sub (Constant (VInt 5)))]))
  ].

Definition parse_more (code : string) (perm : unit)
  : outcome (string * list stmt) :=
  match lookup_program code more_programs with
  | Some r => inr r
  | None => parse_sample code perm
  end.

(** * Properties *)

(** ** Lists and dictionaries *)

Lemma last_item_snoc {A : Type} (l : list A) (x : A) :
  last_item (l ++ [x])%list = Some x.
Proof.
  induction l as [|a l IH]; simpl; [reflexivity|].
  rewrite IH. destruct (l ++ [x])%list eqn:E; [|reflexivity].
  destruct l; discriminate.
Qed.


Lemma last_item_some {A : Type} (l : list A) (x : A) :
  last_item l = Some x -> l = (removelast l ++ [x])%list.
Proof.
  induction l as [|a l IH]; [discriminate|].
  destruct l as [|b l].
  - simpl. intros [= ->]. reflexivity.
  - intros H. change (last_item (b :: l) = Some x) in H.
    change (removelast (a :: b :: l)) with (a :: removelast (b :: l)).
    simpl app. f_equal. apply IH, H.
Qed.

Lemma has_value_value_of (s : stmt) :
  has_value s = true <-> exists e, value_of s = Some e.
Proof.
  destruct s; simpl; split; intros H; try discriminate; eauto;
    destruct H as [e H]; discriminate.
Qed.

Module DictFacts.

Lemma get_set_same (d : dict) (k : string) (v : value) :
  Dict.get (Dict.set d k v) k = Some v.
Proof.
  induction d as [|[k' v'] d IH]; simpl.
  - rewrite String.eqb_refl. reflexivity.
  - destruct (String.eqb k' k) eqn:E; simpl; rewrite E; auto.
Qed.

Lemma get_set_other (d : dict) (k k' : string) (v : value) :
  k <> k' -> Dict.get (Dict.set d k v) k' = Dict.get d k'.
Proof.
  intros Hne. induction d as [|[k0 v0] d IH]; simpl.
  - destruct (String.eqb k k') eqn:E; [|reflexivity].
    apply String.eqb_eq in E. contradiction.
  - destruct (String.eqb k0 k) eqn:E; simpl.
    + apply String.eqb_eq in E. subst k0.
      destruct (String.eqb k k') eqn:E'; [|reflexivity].
      apply String.eqb_eq in E'. contradiction.
    + rewrite IH. reflexivity.
Qed.

Lemma get_set_all_other (ks : list string) (d : dict) (k : string) (v : value) :
  ~ In k ks -> Dict.get (Dict.set_all d ks v) k = Dict.get d k.
Proof.
  revert d. induction ks as [|k0 ks IH]; intros d Hn; [reflexivity|].
  unfold Dict.set_all in *. simpl. rewrite IH.
  - apply get_set_other. intros ->. apply Hn. left. reflexivity.
  - intros Hin. apply Hn. right. exact Hin.
Qed.

Lemma get_set_all_in (ks : list string) (d : dict) (k : string) (v : value) :
  In k ks -> Dict.get (Dict.set_all d ks v) k = Some v.
Proof.
  revert d. induction ks as [|k0 ks IH]; intros d Hin; [destruct Hin|].
  unfold Dict.set_all in *. simpl.
  destruct (in_dec string_dec k ks) as [Hks|Hks].
  - apply IH, Hks.
  - destruct Hin as [->|Hin]; [|contradiction].
    change (Dict.get (Dict.set_all (Dict.set d k v) ks v) k = Some v).
    rewrite get_set_all_other by exact Hks. apply get_set_same.
Qed.

(** A name that is new to the dictionary becomes its last entry. *)
Lemma set_fresh_last (d : dict) (k : string) (v : value) :
  Dict.get d k = None -> Dict.set d k v = (d ++ [(k, v)])%list.
Proof.
  induction d as [|[k' v'] d IH]; simpl; [reflexivity|].
  destruct (String.eqb k' k); [discriminate|].
  intros H. rewrite IH by exact H. reflexivity.
Qed.

(** Rebinding a name leaves the order of the names as it is. *)
Lemma set_keeps_keys (d : dict) (k : string) (v : value) :
  Dict.mem d k = true -> Dict.keys (Dict.set d k v) = Dict.keys d.
Proof.
  unfold Dict.mem. induction d as [|[k' v'] d IH]; simpl; [discriminate|].
  destruct (String.eqb k' k); simpl; [reflexivity|].
  intros H. rewrite IH by exact H. reflexivity.
Qed.

Lemma values_snoc (d : dict) (k : string) (v : value) :
  last_item (Dict.values (d ++ [(k, v)])%list) = Some v.
Proof.
  unfold Dict.values. rewrite map_app. simpl. apply last_item_snoc.
Qed.

End DictFacts.

(** ** The interpreter *)

(** Evaluating an expression leaves every name it does not store into
    bound as before. *)
Lemma py_eval_keeps (x : string) (e : expr) :
  forall g l v l',
    py_eval e g l = inr (v, l') ->
    assigns e x = false ->
    Dict.get l' x = Dict.get l x.
Proof.
  induction e as [c|id|a IHa op b IHb|a IHa op b IHb|target e1 IH];
    simpl; intros g l v l' Hev Has.
  - injection Hev as _ <-. reflexivity.
  - destruct (load_name id g l); [discriminate|].
    injection Hev as _ <-. reflexivity.
  - apply orb_false_iff in Has as [Ha Hb].
    destruct (py_eval a g l) as [|[va l1]] eqn:Ea; [discriminate|].
    destruct (py_eval b g l1) as [|[vb l2]] eqn:Eb; [discriminate|].
    destruct (binop op va vb); [discriminate|].
    injection Hev as _ <-.
    rewrite (IHb _ _ _ _ Eb Hb). apply (IHa _ _ _ _ Ea Ha).
  - apply orb_false_iff in Has as [Ha Hb].
    destruct (py_eval a g l) as [|[va l1]] eqn:Ea; [discriminate|].
    destruct (py_eval b g l1) as [|[vb l2]] eqn:Eb; [discriminate|].
    destruct (compare op va vb); [discriminate|].
    injection Hev as _ <-.
    rewrite (IHb _ _ _ _ Eb Hb). apply (IHa _ _ _ _ Ea Ha).
  - apply orb_false_iff in Has as [Ht He].
    destruct (py_eval e1 g l) as [|[v1 l1]] eqn:E1; [discriminate|].
    injection Hev as _ <-.
    rewrite DictFacts.get_set_other.
    + apply (IH _ _ _ _ E1 He).
    + intros ->. rewrite String.eqb_refl in Ht. discriminate.
Qed.

(** [while True: pass] has not finished after any number of steps. *)
Lemma while_true_runs_forever (g : dict) :
  forall fuel l,
    py_exec fuel [While (Constant (VBool true)) [Pass]] g l = None
    /\ py_exec fuel [Pass; While (Constant (VBool true)) [Pass]] g l = None.
Proof.
  induction fuel as [|fuel IH]; intros l; [split; reflexivity|].
  destruct (IH l) as [Hw Hp]. split; simpl.
  - exact Hp.
  - exact Hw.
Qed.

(** More steps never change the outcome of a program that has finished. *)
Lemma py_exec_more_fuel :
  forall fuel body g l r,
    py_exec fuel body g l = Some r ->
    forall fuel', (fuel <= fuel')%nat -> py_exec fuel' body g l = Some r.
Proof.
  induction fuel as [|fuel IH]; intros body g l r H fuel' Hle.
  - destruct body; [|discriminate]. destruct fuel'; exact H.
  - destruct fuel' as [|fuel']; [lia|].
    assert (Hle' : (fuel <= fuel')%nat) by lia.
    destruct body as [|s rest]; [exact H|].
    simpl in H |- *.
    destruct s as [e|targets e|target op e| |test b1 b2|test b1].
    + destruct (py_eval e g l) as [|[? ?]]; [exact H|]. eapply IH; eauto.
    + destruct (py_eval e g l) as [|[? ?]]; [exact H|]. eapply IH; eauto.
    + destruct (load_name target g l) as [|old]; [exact H|].
      destruct (py_eval e g l) as [|[v ?]]; [exact H|].
      destruct (binop op old v); [exact H|]. eapply IH; eauto.
    + eapply IH; eauto.
    + destruct (py_eval test g l) as [|[? ?]]; [exact H|]. eapply IH; eauto.
    + destruct (py_eval test g l) as [|[c ?]]; [exact H|].
      destruct (truthy c); eapply IH; eauto.
Qed.

(** ** The evaluation engine *)

Section EngineFacts.

Variable permission : Type.
Variable get_permission : permission.
Variable parse : string -> permission -> outcome (string * list stmt).


(** [run] on a program whose last statement carries a value. *)
Lemma run_value_branch fuel st code perm kwargs code' body s e :
  parse code (effective_permission get_permission perm) = inr (code', (body ++ [s])%list) ->
  value_of s = Some e ->
  run get_permission parse fuel st code perm kwargs =
    match py_exec fuel body (ambient st kwargs) Dict.empty with
    | None => None
    | Some (inl x) => Some (inl (CodeError code' x))
    | Some (inr l1) =>
        match py_eval e (ambient st kwargs) l1 with
        | inl x => Some (inl (CodeError code' x))
        | inr (v, l2) =>
            Some (inr (Dict.set_all l2
                         (RESULT_KEY :: match s with
                                        | Assign targets _ => targets
                                        | _ => []
                                        end) v))
        end
    end.
Proof.
  intros Hparse Hval. unfold run. rewrite Hparse.
  rewrite last_item_snoc, Hval, removelast_last. reflexivity.
Qed.

(** [run] on a program whose last statement carries no value. *)
Lemma run_effect_branch fuel st code perm kwargs code' body s :
  parse code (effective_permission get_permission perm) = inr (code', body) ->
  last_item body = Some s ->
  has_value s = false ->
  run get_permission parse fuel st code perm kwargs =
    match py_exec fuel body (ambient st kwargs) Dict.empty with
    | None => None
    | Some (inl x) => Some (inl (CodeError code' x))
    | Some (inr l) =>
        match last_item (Dict.values l) with
        | None => Some (inl (IndexError "list index out of range"))
        | Some v => Some (inr (Dict.set l RESULT_KEY v))
        end
    end.
Proof.
  intros Hparse Hlast Hval. unfold run. rewrite Hparse, Hlast.
  destruct s; try discriminate; reflexivity.
Qed.

(** Once [run] has come back, a larger bound gives the same outcome. *)
Lemma run_more_fuel fuel fuel' st code perm kwargs r :
  run get_permission parse fuel st code perm kwargs = Some r ->
  (fuel <= fuel')%nat ->
  run get_permission parse fuel' st code perm kwargs = Some r.
Proof.
  unfold run. intros H Hle.
  destruct (parse code (effective_permission get_permission perm))
    as [x|[code' body]]; [exact H|].
  destruct (last_item body) as [s|]; [|exact H].
  destruct (value_of s) as [e|].
  - destruct (py_exec fuel (removelast body) _ _) as [o|] eqn:E; [|discriminate].
    rewrite (py_exec_more_fuel _ _ _ _ _ E _ Hle). exact H.
  - destruct (py_exec fuel body _ _) as [o|] eqn:E; [|discriminate].
    rewrite (py_exec_more_fuel _ _ _ _ _ E _ Hle). exact H.
Qed.

(** C2.  When the last top-level statement of the program is a plain
    expression [e], the statements before it run to the local bindings
    [l1], and [e] evaluates there to [v], then [run] returns the local
    bindings with [v] under ['__result__']. *)
Theorem run_trailing_expression fuel st code perm kwargs code' body e l1 v l2 :
  parse code (effective_permission get_permission perm) = inr (code', (body ++ [Expr e])%list) ->
  py_exec fuel body (ambient st kwargs) Dict.empty = Some (inr l1) ->
  py_eval e (ambient st kwargs) l1 = inr (v, l2) ->
  run get_permission parse fuel st code perm kwargs = Some (inr (Dict.set l2 RESULT_KEY v))
  /\ Dict.get (Dict.set l2 RESULT_KEY v) RESULT_KEY = Some v.
Proof.
  intros Hparse Hexec Heval. split.
  - rewrite (run_value_branch _ _ _ _ _ _ _ _ e Hparse eq_refl).
    rewrite Hexec, Heval. reflexivity.
  - apply DictFacts.get_set_same.
Qed.

(** C3.  When the last top-level statement is an assignment
    [x = y = ... = e], the statements before it run to the local bindings
    [l1], and [e] evaluates there to [v], then the map [run] returns has
    [v] under ['__result__'] and under every target name, and every other
    name bound as the program left it. *)
Theorem run_trailing_assignment
  fuel st code perm kwargs code' body targets e l1 v l2 :
  parse code (effective_permission get_permission perm)
    = inr (code', (body ++ [Assign targets e])%list) ->
  py_exec fuel body (ambient st kwargs) Dict.empty = Some (inr l1) ->
  py_eval e (ambient st kwargs) l1 = inr (v, l2) ->
  exists result,
    run get_permission parse fuel st code perm kwargs = Some (inr result)
    /\ Dict.get result RESULT_KEY = Some v
    /\ (forall x, In x targets -> Dict.get result x = Some v)
    /\ (forall x, x <> RESULT_KEY -> ~ In x targets ->
                  Dict.get result x = Dict.get l2 x).
Proof.
  intros Hparse Hexec Heval.
  exists (Dict.set_all l2 (RESULT_KEY :: targets) v). repeat split.
  - rewrite (run_value_branch _ _ _ _ _ _ _ _ e Hparse eq_refl).
    rewrite Hexec, Heval. reflexivity.
  - apply DictFacts.get_set_all_in. left. reflexivity.
  - intros x Hx. apply DictFacts.get_set_all_in. right. exact Hx.
  - intros x Hne Hx. apply DictFacts.get_set_all_other.
    intros [Heq|Hin]; [apply Hne; symmetry; exact Heq|exact (Hx Hin)].
Qed.

(** C4.  When the last top-level statement carries no value (a loop, a
    conditional, [pass]) and the whole program runs to local bindings
    whose last entry, in insertion order, is [x] bound to [v], then [run]
    returns those bindings with [v] under ['__result__']. *)
Theorem run_trailing_statement fuel st code perm kwargs code' body s l x v :
  parse code (effective_permission get_permission perm) = inr (code', body) ->
  last_item body = Some s ->
  has_value s = false ->
  py_exec fuel body (ambient st kwargs) Dict.empty
    = Some (inr (l ++ [(x, v)])%list) ->
  run get_permission parse fuel st code perm kwargs
    = Some (inr (Dict.set (l ++ [(x, v)])%list RESULT_KEY v))
  /\ Dict.get (Dict.set (l ++ [(x, v)])%list RESULT_KEY v) RESULT_KEY = Some v.
Proof.
  intros Hparse Hlast Hval Hexec. split.
  - rewrite (run_effect_branch _ _ _ _ _ _ _ _ Hparse Hlast Hval).
    rewrite Hexec, DictFacts.values_snoc. reflexivity.
  - apply DictFacts.get_set_same.
Qed.

(** C9.  When the last top-level statement carries no value and the whole
    program runs without binding any local name, [run] raises the
    [IndexError] of taking the last element of an empty list, and not a
    [CodeError] around it. *)
Theorem run_no_local_bindings fuel st code perm kwargs code' body s :
  parse code (effective_permission get_permission perm) = inr (code', body) ->
  last_item body = Some s ->
  has_value s = false ->
  py_exec fuel body (ambient st kwargs) Dict.empty = Some (inr Dict.empty) ->
  run get_permission parse fuel st code perm kwargs
    = Some (inl (IndexError "list index out of range"))
  /\ (forall c cause,
        run get_permission parse fuel st code perm kwargs <> Some (inl (CodeError c cause))).
Proof.
  intros Hparse Hlast Hval Hexec.
  assert (H : run get_permission parse fuel st code perm kwargs
              = Some (inl (IndexError "list index out of range"))).
  { rewrite (run_effect_branch _ _ _ _ _ _ _ _ Hparse Hlast Hval).
    rewrite Hexec. reflexivity. }
  split; [exact H|]. intros c cause. rewrite H. discriminate.
Qed.

(** C10, amended.  When the last top-level statement is an augmented
    assignment [x op= e], the statements before it run to the local
    bindings [l1], and [e] evaluates there to [v], then [run] returns the
    bindings as the evaluation of [e] left them with [v] under
    ['__result__']: the operator is not applied and [x] is not stored.
    Unless [x] is ['__result__'] itself or [e] stores into [x], the name
    [x] is bound, or unbound, in the returned map as it was before the
    statement. *)
Theorem run_trailing_augassign
  fuel st code perm kwargs code' body x op e l1 v l2 :
  parse code (effective_permission get_permission perm)
    = inr (code', (body ++ [AugAssign x op e])%list) ->
  py_exec fuel body (ambient st kwargs) Dict.empty = Some (inr l1) ->
  py_eval e (ambient st kwargs) l1 = inr (v, l2) ->
  run get_permission parse fuel st code perm kwargs = Some (inr (Dict.set l2 RESULT_KEY v))
  /\ Dict.get (Dict.set l2 RESULT_KEY v) RESULT_KEY = Some v
  /\ (x <> RESULT_KEY -> assigns e x = false ->
      Dict.get (Dict.set l2 RESULT_KEY v) x = Dict.get l1 x).
Proof.
  intros Hparse Hexec Heval. repeat split.
  - rewrite (run_value_branch _ _ _ _ _ _ _ _ e Hparse eq_refl).
    rewrite Hexec, Heval. reflexivity.
  - apply DictFacts.get_set_same.
  - intros Hne Has. rewrite DictFacts.get_set_other.
    + exact (py_eval_keeps x e _ _ _ _ Heval Has).
    + intros Heq. apply Hne. symmetry. exact Heq.
Qed.

(** C5, amended.  A fault of the parser leaves [run] as it is.  A fault
    raised while the statements run, or while the trailing expression is
    evaluated, leaves [run] as a [CodeError] that carries the code text
    the parser returned and the fault as its cause. *)
Theorem run_fault_wrapping fuel st code perm kwargs :
  (forall x,
      parse code (effective_permission get_permission perm) = inl x ->
      run get_permission parse fuel st code perm kwargs = Some (inl x))
  /\ (forall code' body s e x,
        parse code (effective_permission get_permission perm) = inr (code', (body ++ [s])%list) ->
        value_of s = Some e ->
        py_exec fuel body (ambient st kwargs) Dict.empty = Some (inl x) ->
        run get_permission parse fuel st code perm kwargs = Some (inl (CodeError code' x)))
  /\ (forall code' body s e l1 x,
        parse code (effective_permission get_permission perm) = inr (code', (body ++ [s])%list) ->
        value_of s = Some e ->
        py_exec fuel body (ambient st kwargs) Dict.empty = Some (inr l1) ->
        py_eval e (ambient st kwargs) l1 = inl x ->
        run get_permission parse fuel st code perm kwargs = Some (inl (CodeError code' x)))
  /\ (forall code' body s x,
        parse code (effective_permission get_permission perm) = inr (code', body) ->
        last_item body = Some s ->
        has_value s = false ->
        py_exec fuel body (ambient st kwargs) Dict.empty = Some (inl x) ->
        run get_permission parse fuel st code perm kwargs = Some (inl (CodeError code' x))).
Proof.
  repeat split.
  - intros x Hparse. unfold run. rewrite Hparse. reflexivity.
  - intros code' body s e x Hparse Hval Hexec.
    rewrite (run_value_branch _ _ _ _ _ _ _ _ e Hparse Hval).
    rewrite Hexec. reflexivity.
  - intros code' body s e l1 x Hparse Hval Hexec Heval.
    rewrite (run_value_branch _ _ _ _ _ _ _ _ e Hparse Hval).
    rewrite Hexec, Heval. reflexivity.
  - intros code' body s x Hparse Hlast Hval Hexec.
    rewrite (run_effect_branch _ _ _ _ _ _ _ _ Hparse Hlast Hval).
    rewrite Hexec. reflexivity.
Qed.

End EngineFacts.

(** ** The context store *)

Lemma thread_local_push_stack (st : tls) (v : dict) :
  thread_local_push st v = Some (stack_of st ++ [v])%list.
Proof. destruct st; reflexivity. Qed.

Lemma thread_local_pop_push (below : list dict) (v : dict) :
  thread_local_pop (Some (below ++ [v])%list) = inr (Some below).
Proof.
  unfold thread_local_pop, thread_local_get.
  generalize (removelast_last below v).
  destruct (below ++ [v])%list eqn:E.
  - destruct below; discriminate.
  - intros ->. reflexivity.
Qed.

Lemma get_context_top (below : list dict) (v : dict) :
  get_context (Some (below ++ [v])%list) = v.
Proof. unfold get_context, thread_local_get. rewrite last_item_snoc. reflexivity. Qed.

Lemma get_context_stack_of (st : tls) :
  get_context (Some (stack_of st)) = get_context st.
Proof. destruct st; reflexivity. Qed.

Section ContextFacts.

Variable A : Type.
Variable body : dict -> tls -> outcome A * tls.
Hypothesis body_scoped : keeps_frames_below body.

(** The block as a whole: the body runs on the store with the merged
    frame on top, and the store comes back with the stack it had. *)
Lemma context_runs_body (kwargs : dict) (st : tls) :
  context kwargs body st =
    (fst (body (Dict.update (get_context st) kwargs)
               (Some (stack_of st ++ [Dict.update (get_context st) kwargs])%list)),
     Some (stack_of st)).
Proof.
  unfold context. rewrite thread_local_push_stack.
  set (ctx := Dict.update (get_context st) kwargs).
  destruct (body_scoped ctx (stack_of st) ctx) as [top' Htop].
  destruct (body ctx (Some (stack_of st ++ [ctx])%list)) as [r st2].
  simpl in Htop |- *.
  destruct st2 as [stack2|]; simpl in Htop.
  - subst stack2. rewrite thread_local_pop_push. reflexivity.
  - destruct (stack_of st); discriminate.
Qed.

(** C6.  For every store and every keyword bindings, the frame the block
    pushes is the current context updated with the bindings; the block
    ends as its body ends, with the value or with the fault; and once it
    has ended [get_context] returns what it returned before the block,
    the stack being as it was. *)
Theorem context_restores_context (kwargs : dict) (st : tls) :
  let ctx := Dict.update (get_context st) kwargs in
  stack_of (thread_local_push st ctx) = (stack_of st ++ [ctx])%list
  /\ get_context (thread_local_push st ctx) = ctx
  /\ fst (context kwargs body st) = fst (body ctx (thread_local_push st ctx))
  /\ stack_of (snd (context kwargs body st)) = stack_of st
  /\ get_context (snd (context kwargs body st)) = get_context st.
Proof.
  intros ctx. rewrite context_runs_body, thread_local_push_stack.
  repeat split.
  - apply get_context_top.
  - simpl. apply get_context_stack_of.
Qed.

(** A block is itself a body that an enclosing block may run. *)
Lemma context_nests (kwargs : dict) :
  keeps_frames_below (fun _ st => context kwargs body st).
Proof.
  intros ctx below top. exists top.
  rewrite context_runs_body. reflexivity.
Qed.

End ContextFacts.

(** [run] only reads the store. *)
Lemma get_context_during_block (below : list dict) (top : dict) (kwargs : dict) :
  ambient (Some (below ++ [top])%list) kwargs = Dict.update top kwargs.
Proof. unfold ambient. rewrite get_context_top. reflexivity. Qed.

(** ** The isolation runner *)

Lemma length_repeat_string (n : nat) :
  String.length (repeat_string n "x") = n.
Proof. induction n as [|n IH]; simpl; [reflexivity|]. rewrite IH. reflexivity. Qed.

Lemma length_quoted (s : string) :
  String.length (quote ++ s ++ quote) = S (S (String.length s)).
Proof.
  simpl. f_equal. induction s as [|c s IH]; simpl; [reflexivity|].
  rewrite IH. reflexivity.
Qed.

Section SandboxFacts.

Variable pipe_capacity : nat.
Variable R : Type.
Variable to_json_str : R -> outcome string.
Variable from_json_str : string -> outcome R.

(** A worker whose message fits the pipe exits, and the call returns what
    the message holds. *)
Lemma sandbox_call_delivers (func : callable R) (timeout : option Z)
  (patience : nat) (m : message) :
  _call to_json_str func
        (match timeout with Some secs => Z.to_nat secs | None => patience end)
    = Some m ->
  (message_length m <= pipe_capacity)%nat ->
  sandbox_call pipe_capacity to_json_str from_json_str func timeout patience
  = Some (match m with
          | MsgExn e => inl e
          | MsgJson x => from_json_str x
          end, Stopped).
Proof.
  intros Hm Hfit. apply Nat.leb_le in Hfit.
  unfold sandbox_call, join, exited, start, Process. simpl target.
  destruct timeout as [secs|]; rewrite Hm, Hfit; simpl; destruct m; reflexivity.
Qed.

(** A worker whose message does not fit the pipe stays alive: the call
    that waits without a timeout is blocked, and the call with a timeout
    ends in [TimeoutError]. *)
Lemma sandbox_call_long_message (func : callable R) (timeout : option Z)
  (patience : nat) (m : message) :
  _call to_json_str func
        (match timeout with Some secs => Z.to_nat secs | None => patience end)
    = Some m ->
  (pipe_capacity < message_length m)%nat ->
  sandbox_call pipe_capacity to_json_str from_json_str func timeout patience
  = match timeout with
    | None => None
    | Some secs =>
        Some (inl (TimeoutError ("Execution time exceed "
                                 ++ string_of_Z secs ++ " seconds.")),
              Terminated)
    end.
Proof.
  intros Hm Hlong. apply Nat.leb_gt in Hlong.
  unfold sandbox_call, join, exited, start, Process. simpl target.
  destruct timeout as [secs|]; rewrite Hm, Hlong; reflexivity.
Qed.

(** Without a timeout, a returned value whose JSON text fits the pipe and
    converts back to the value is returned as it is. *)
Lemma sandbox_call_returns (func : callable R) (t : nat) (v : R) (s : string) :
  func t = Some (inr v) ->
  to_json_str v = inr s ->
  (String.length s <= pipe_capacity)%nat ->
  from_json_str s = inr v ->
  sandbox_call pipe_capacity to_json_str from_json_str func None t
  = Some (inr v, Stopped).
Proof.
  intros Hf Hto Hfit Hfrom.
  rewrite (sandbox_call_delivers func None t (MsgJson s)).
  - rewrite Hfrom. reflexivity.
  - unfold _call. rewrite Hf, Hto. reflexivity.
  - exact Hfit.
Qed.

(** A raised exception whose text fits the pipe is raised again, the same
    exception, when the callable raised it before the timeout, if there is
    one. *)
Lemma sandbox_call_raises (func : callable R) (timeout : option Z)
  (patience : nat) (e : exn) :
  func (match timeout with Some secs => Z.to_nat secs | None => patience end)
    = Some (inl e) ->
  (exn_length e <= pipe_capacity)%nat ->
  sandbox_call pipe_capacity to_json_str from_json_str func timeout patience
  = Some (inl e, Stopped).
Proof.
  intros Hf Hfit.
  rewrite (sandbox_call_delivers func timeout patience (MsgExn e)).
  - reflexivity.
  - unfold _call. rewrite Hf. reflexivity.
  - exact Hfit.
Qed.

(** A callable that has not finished when the timeout expires: the worker
    is terminated and the [TimeoutError] names the timeout. *)
Lemma sandbox_call_expired (func : callable R) (secs : Z) (patience : nat) :
  func (Z.to_nat secs) = None ->
  sandbox_call pipe_capacity to_json_str from_json_str func (Some secs) patience
  = Some (inl (TimeoutError ("Execution time exceed "
                             ++ string_of_Z secs ++ " seconds.")),
          Terminated).
Proof.
  intros Hf. unfold sandbox_call, join, exited, start, Process, _call.
  simpl target. rewrite Hf. reflexivity.
Qed.

(** Whenever the call returns or raises, the worker has exited or has been
    terminated. *)
Lemma sandbox_call_worker_stopped (func : callable R) (timeout : option Z)
  (patience : nat) (r : outcome R) (st : status) :
  sandbox_call pipe_capacity to_json_str from_json_str func timeout patience
    = Some (r, st) ->
  st = Stopped \/ st = Terminated.
Proof.
  unfold sandbox_call, join, exited, start, Process. simpl target. simpl queue.
  destruct timeout as [secs|].
  - destruct (_call to_json_str func (Z.to_nat secs)) as [m|].
    + destruct (Nat.leb (message_length m) pipe_capacity); simpl.
      * destruct m; intros [= _ <-]; left; reflexivity.
      * intros [= _ <-]. right. reflexivity.
    + simpl. intros [= _ <-]. right. reflexivity.
  - destruct (_call to_json_str func patience) as [m|]; [|discriminate].
    destruct (Nat.leb (message_length m) pipe_capacity); [|discriminate].
    simpl. destruct m; intros [= _ <-]; left; reflexivity.
Qed.

(** Without a timeout the call never raises [TimeoutError] of its own: it
    is blocked for as long as the callable runs. *)
Lemma sandbox_call_blocks (func : callable R) (patience : nat) :
  func patience = None ->
  sandbox_call pipe_capacity to_json_str from_json_str func None patience = None.
Proof.
  intros Hf. unfold sandbox_call, join, exited, start, Process, _call.
  simpl target. rewrite Hf. reflexivity.
Qed.

End SandboxFacts.

(** C7.  [sandbox_call] on [lambda: 'x' * n] where the pipe of the queue
    holds [n] characters.  The callable returns at once and its value has
    a JSON text; yet without a timeout the call is still blocked however
    long the caller waits, and with a timeout of 5 it raises
    [TimeoutError]: the parent joins the worker before it reads the queue,
    and the worker cannot exit before its message is read. *)
Theorem sandbox_call_blocks_on_long_result
  (pipe_capacity : nat) (from_json_str : string -> outcome string)
  (patience : nat) :
  sandbox_call pipe_capacity str_to_json_str from_json_str
               (returns (repeat_string pipe_capacity "x")) None patience
  = None
  /\ sandbox_call pipe_capacity str_to_json_str from_json_str
                  (returns (repeat_string pipe_capacity "x")) (Some 5) patience
     = Some (inl (TimeoutError "Execution time exceed 5 seconds."), Terminated).
Proof.
  assert (Hlong : (pipe_capacity
                   < message_length
                       (MsgJson (quote ++ repeat_string pipe_capacity "x" ++ quote)))%nat).
  { unfold message_length. rewrite length_quoted, length_repeat_string. lia. }
  split.
  - apply (sandbox_call_long_message pipe_capacity string str_to_json_str
             from_json_str (returns (repeat_string pipe_capacity "x"))
             None patience _ eq_refl Hlong).
  - apply (sandbox_call_long_message pipe_capacity string str_to_json_str
             from_json_str (returns (repeat_string pipe_capacity "x"))
             (Some 5) patience _ eq_refl Hlong).
Qed.

(** C8.  [sandbox_call] with a timeout of 5 on a callable that raises
    [ValueError('x' * (n + 1))] at once, where the pipe of the queue holds
    [n] characters: the fault surfaces as [TimeoutError], not as the
    [ValueError]. *)
Theorem sandbox_call_times_out_on_long_fault
  (pipe_capacity : nat) (patience : nat) :
  sandbox_call pipe_capacity int_to_json_str int_from_json_str
               (raises (ValueError (repeat_string (S pipe_capacity) "x")))
               (Some 5) patience
  = Some (inl (TimeoutError "Execution time exceed 5 seconds."), Terminated).
Proof.
  apply (sandbox_call_long_message pipe_capacity Z int_to_json_str
           int_from_json_str _ (Some 5) patience
           (MsgExn (ValueError (repeat_string (S pipe_capacity) "x")))).
  - reflexivity.
  - unfold message_length, exn_length. rewrite length_repeat_string. lia.
Qed.

(** ** [sandbox_run] *)

Lemma py_exec_nil (fuel : nat) (g l : dict) :
  py_exec fuel [] g l = Some (inr l).
Proof. destruct fuel; reflexivity. Qed.

(** What the call in [sandbox_run] amounts to: [run] receives the timeout
    as one more keyword binding, named [time], and [sandbox_call] waits
    without a timeout. *)
Lemma sandbox_run_call
  (permission : Type) (get_permission : permission)
  (parse : string -> permission -> outcome (string * list stmt))
  (pipe_capacity : nat)
  (to_json_str : dict -> outcome string)
  (from_json_str : string -> outcome dict)
  st code perm timeout kwargs patience :
  Dict.mem kwargs "time" = false ->
  Dict.mem kwargs "func" = false ->
  sandbox_run get_permission parse pipe_capacity to_json_str from_json_str
              st code perm timeout kwargs patience
  = sandbox_call pipe_capacity to_json_str from_json_str
      (fun t => run get_permission parse t st code perm
                    (("time", value_of_timeout timeout) :: kwargs))
      None patience.
Proof.
  intros Htime Hfunc. unfold sandbox_run. rewrite Htime, Hfunc. reflexivity.
Qed.

(** C1.  [sandbox_run] at two inputs.  With a timeout of 1 on
    [while True: pass] the call is still blocked however long the caller
    waits: no [TimeoutError] is raised.  With a timeout of 5 the program
    [time] finds a name [time] bound to 5, which the caller did not
    supply: the call is [sandbox_call], without a timeout, on a callable
    that returns [{'__result__': 5}]. *)
Theorem sandbox_run_ignores_timeout
  (pipe_capacity : nat)
  (to_json_str : dict -> outcome string)
  (from_json_str : string -> outcome dict) (patience : nat) :
  sandbox_run tt parse_sample pipe_capacity to_json_str from_json_str
              None "while True: pass" None (Some 1) [] patience = None
  /\ sandbox_run tt parse_sample pipe_capacity to_json_str from_json_str
                 None "time" None (Some 5) [] patience
     = sandbox_call pipe_capacity to_json_str from_json_str
                    (returns [("__result__", VInt 5)]) None patience.
Proof.
  split.
  - rewrite sandbox_run_call by reflexivity.
    apply sandbox_call_blocks.
    rewrite (run_effect_branch unit tt parse_sample patience None
               "while True: pass" None _ "while True: pass"
               [While (Constant (VBool true)) [Pass]]
               (While (Constant (VBool true)) [Pass])
               eq_refl eq_refl eq_refl).
    rewrite (proj1 (while_true_runs_forever _ patience Dict.empty)).
    reflexivity.
  - rewrite sandbox_run_call by reflexivity.
    unfold sandbox_call, join, exited, start, Process, _call, returns.
    simpl target.
    rewrite (run_value_branch unit tt parse_sample patience None
               "time" None _ "time" [] (Expr (Name "time")) (Name "time")
               eq_refl eq_refl).
    rewrite py_exec_nil. simpl. unfold RESULT_KEY.
    destruct (to_json_str [("__result__", VInt 5)]) as [e|x]; simpl.
    + destruct (Nat.leb (exn_length e) pipe_capacity); reflexivity.
    + destruct (Nat.leb (String.length x) pipe_capacity); reflexivity.
Qed.

(** ** The engine on concrete programs *)

(** The program [a = 1; a + 2], the two statements on a line each. *)
Lemma run_trailing_expression_witness :
  run tt parse_sample 1 None ("a = 1" ++ nl ++ "a + 2") None []
  = Some (inr [("a", VInt 1); ("__result__", VInt 3)]).
Proof.
  exact (proj1 (run_trailing_expression unit tt parse_sample
                  1 None ("a = 1" ++ nl ++ "a + 2") None []
                  ("a = 1" ++ nl ++ "a + 2")
                  [Assign ["a"] (Constant (VInt 1))]
                  (BinOp (Name "a") Add (Constant (VInt 2)))
                  [("a", VInt 1)] (VInt 3) [("a", VInt 1)]
                  eq_refl eq_refl eq_refl)).
Defined.

(** The program [x = 5]. *)
Lemma run_trailing_assignment_witness :
  exists result,
    run tt parse_sample 0 None "x = 5" None [] = Some (inr result)
    /\ Dict.get result "__result__" = Some (VInt 5)
    /\ Dict.get result "x" = Some (VInt 5).
Proof.
  destruct (run_trailing_assignment unit tt parse_sample
              0 None "x = 5" None [] "x = 5" [] ["x"] (Constant (VInt 5))
              [] (VInt 5) [] eq_refl eq_refl eq_refl)
    as [result [Hrun [Hres [Htargets _]]]].
  exists result. split; [exact Hrun|]. split; [exact Hres|].
  apply Htargets. left. reflexivity.
Defined.

(** As Python compares dictionaries, the map [run] returns for [x = 5] is
    [{'x': 5, '__result__': 5}], and for [x = y = 5] it binds both names. *)
Example run_assignment_maps :
  match run tt parse_sample 0 None "x = 5" None [] with
  | Some (inr result) => Dict.eqb result [("x", VInt 5); ("__result__", VInt 5)]
  | _ => false
  end = true
  /\ run tt parse_sample 0 None "x = y = 5" None []
     = Some (inr [("__result__", VInt 5); ("x", VInt 5); ("y", VInt 5)]).
Proof. split; reflexivity. Qed.

(** A program that ends in a loop: [i = 0; j = 7; while i < 3: i += 1].
    The name bound last is [j], and its value is the result, although the
    loop goes on to rebind [i]. *)
Lemma run_trailing_statement_witness :
  run tt parse_sample 20 None
      ("i = 0" ++ nl ++ "j = 7" ++ nl ++ "while i < 3: i += 1") None []
  = Some (inr [("i", VInt 3); ("j", VInt 7); ("__result__", VInt 7)]).
Proof.
  exact (proj1 (run_trailing_statement unit tt parse_sample
                  20 None
                  ("i = 0" ++ nl ++ "j = 7" ++ nl ++ "while i < 3: i += 1")
                  None []
                  ("i = 0" ++ nl ++ "j = 7" ++ nl ++ "while i < 3: i += 1")
                  [Assign ["i"] (Constant (VInt 0));
                   Assign ["j"] (Constant (VInt 7));
                   While (Compare (Name "i") Lt (Constant (VInt 3)))
                         [AugAssign "i" Add (Constant (VInt 1))]]
                  (While (Compare (Name "i") Lt (Constant (VInt 3)))
                         [AugAssign "i" Add (Constant (VInt 1))])
                  [("i", VInt 3)] "j" (VInt 7)
                  eq_refl eq_refl eq_refl eq_refl)).
Defined.

(** The program [pass]. *)
Lemma run_no_local_bindings_witness :
  run tt parse_sample 1 None "pass" None []
  = Some (inl (IndexError "list index out of range")).
Proof.
  exact (proj1 (run_no_local_bindings unit tt parse_sample
                  1 None "pass" None [] "pass" [Pass] Pass
                  eq_refl eq_refl eq_refl eq_refl)).
Defined.

(** The program [x = 1; x += 5]: the result is 5 and [x] is still 1. *)
Lemma run_trailing_augassign_witness :
  run tt parse_sample 1 None ("x = 1" ++ nl ++ "x += 5") None []
  = Some (inr [("x", VInt 1); ("__result__", VInt 5)])
  /\ Dict.get [("x", VInt 1); ("__result__", VInt 5)] "x" = Some (VInt 1).
Proof.
  destruct (run_trailing_augassign unit tt parse_sample
              1 None ("x = 1" ++ nl ++ "x += 5") None []
              ("x = 1" ++ nl ++ "x += 5")
              [Assign ["x"] (Constant (VInt 1))] "x" Add (Constant (VInt 5))
              [("x", VInt 1)] (VInt 5) [("x", VInt 1)]
              eq_refl eq_refl eq_refl)
    as [Hrun [_ Hx]].
  split; [exact Hrun|].
  apply Hx; [discriminate|reflexivity].
Defined.

(** C10 as stated fails.  In [__result__ = 1; __result__ += 5] the target
    is bound to 1 before the last statement and to 5 in the returned map;
    in [x = 1; x += (x := 5)] evaluating the right-hand side rebinds the
    target, which is 1 before the last statement and 5 in the returned
    map. *)
Lemma run_trailing_augassign_rebinds_target :
  (py_exec 1 [Assign ["__result__"] (Constant (VInt 1))] [] []
   = Some (inr [("__result__", VInt 1)])
   /\ run tt parse_sample 1 None
          ("__result__ = 1" ++ nl ++ "__result__ += 5") None []
      = Some (inr [("__result__", VInt 5)]))
  /\ (py_exec 1 [Assign ["x"] (Constant (VInt 1))] [] []
      = Some (inr [("x", VInt 1)])
      /\ run tt parse_sample 1 None
             ("x = 1" ++ nl ++ "x += (x := 5)") None []
         = Some (inr [("x", VInt 5); ("__result__", VInt 5)])).
Proof. repeat split; reflexivity. Qed.

(** A source the parser rejects, and a program that divides by zero. *)
Lemma run_fault_wrapping_witness :
  run tt parse_sample 1 None "import os" None []
  = Some (inl (SyntaxError "invalid syntax"))
  /\ run tt parse_sample 1 None "1 // 0" None []
     = Some (inl (CodeError "1 // 0"
                    (ZeroDivisionError "integer division or modulo by zero"))).
Proof.
  destruct (run_fault_wrapping unit tt parse_sample 1 None "import os" None [])
    as [Hparse _].
  destruct (run_fault_wrapping unit tt parse_sample 1 None "1 // 0" None [])
    as [_ [_ [Heval _]]].
  split.
  - apply Hparse. reflexivity.
  - apply (Heval "1 // 0" []
             (Expr (BinOp (Constant (VInt 1)) FloorDiv (Constant (VInt 0))))
             (BinOp (Constant (VInt 1)) FloorDiv (Constant (VInt 0)))
             []); reflexivity.
Defined.

(** C5 as stated fails.  The source is a fenced block; the parser hands
    back the code inside the fence, and that, not the text [run] was
    called with, is what the [CodeError] carries. *)
Lemma run_code_error_carries_parsed_code :
  let source := fence ++ "python" ++ nl ++ "1 // 0" ++ nl ++ fence in
  run tt parse_sample 1 None source None []
  = Some (inl (CodeError "1 // 0"
                 (ZeroDivisionError "integer division or modulo by zero")))
  /\ (forall cause,
        run tt parse_sample 1 None source None []
        <> Some (inl (CodeError source cause))).
Proof.
  split; [reflexivity|].
  intros cause H. vm_compute in H. discriminate H.
Qed.

(** ** The context store on a concrete block *)

Lemma body_sets_then_raises_scoped : keeps_frames_below body_sets_then_raises.
Proof.
  intros ctx below top. exists (Dict.set top "b" (VInt 2)).
  unfold body_sets_then_raises.
  rewrite last_item_snoc, removelast_last. reflexivity.
Qed.

(** A block entered with [a=1] above a frame that binds [z]; its body
    writes [b] through the yielded dict and raises [ValueError]. *)
Lemma context_restores_context_witness :
  let st := Some [[("z", VInt 0)]] in
  fst (context [("a", VInt 1)] body_sets_then_raises st) = inl (ValueError "x")
  /\ get_context (snd (context [("a", VInt 1)] body_sets_then_raises st))
     = get_context st.
Proof.
  intros st.
  destruct (context_restores_context value body_sets_then_raises
              body_sets_then_raises_scoped [("a", VInt 1)] st)
    as [_ [_ [Hres [_ Hctx]]]].
  split; [rewrite Hres; reflexivity|exact Hctx].
Defined.

(** ** The isolation runner on concrete callables *)

(** With a pipe of the default size: a callable that returns -42 after
    three units of time; [lambda: 1/0] with a timeout of 5, which raises
    the [ZeroDivisionError] and not a timeout; a callable that never
    returns, with a timeout of 5. *)
Example sandbox_call_samples :
  sandbox_call PIPE_BUF_SIZE int_to_json_str int_from_json_str
               (returns_after 3 (-42)) None 3
  = Some (inr (-42), Stopped)
  /\ sandbox_call PIPE_BUF_SIZE int_to_json_str int_from_json_str
                  divides_by_zero (Some 5) 0
     = Some (inl (ZeroDivisionError "division by zero"), Stopped)
  /\ sandbox_call PIPE_BUF_SIZE int_to_json_str int_from_json_str
                  never_returns (Some 5) 0
     = Some (inl (TimeoutError "Execution time exceed 5 seconds."), Terminated).
Proof.
  split; [|split].
  - apply (sandbox_call_returns PIPE_BUF_SIZE Z int_to_json_str
             int_from_json_str (returns_after 3 (-42)) 3 (-42) "-42");
      try reflexivity.
    apply Nat.leb_le. reflexivity.
  - apply (sandbox_call_raises PIPE_BUF_SIZE Z int_to_json_str
             int_from_json_str divides_by_zero (Some 5) 0); [reflexivity|].
    apply Nat.leb_le. reflexivity.
  - apply (sandbox_call_expired PIPE_BUF_SIZE Z int_to_json_str
             int_from_json_str never_returns 5 0). reflexivity.
Qed.

(** * Further properties *)

(** ** Dictionaries: membership and [update] *)

Lemma mem_set (d : dict) (k x : string) (v : value) :
  Dict.mem (Dict.set d k v) x = true -> x = k \/ Dict.mem d x = true.
Proof.
  unfold Dict.mem. destruct (string_dec k x) as [->|Hne]; [left; reflexivity|].
  rewrite DictFacts.get_set_other by exact Hne. right. assumption.
Qed.

Lemma mem_set_all (ks : list string) (d : dict) (x : string) (v : value) :
  Dict.mem (Dict.set_all d ks v) x = true -> In x ks \/ Dict.mem d x = true.
Proof.
  revert d. induction ks as [|k ks IH]; intros d H; [right; exact H|].
  change (Dict.set_all d (k :: ks) v) with (Dict.set_all (Dict.set d k v) ks v) in H.
  destruct (IH _ H) as [Hin|Hmem].
  - left. right. exact Hin.
  - destruct (mem_set _ _ _ _ Hmem) as [->|Hd].
    + left. left. reflexivity.
    + right. exact Hd.
Qed.




(** ** Names the interpreter binds *)

Lemma py_eval_binds (e : expr) :
  forall g l v l' x,
    py_eval e g l = inr (v, l') ->
    Dict.mem l' x = true ->
    Dict.mem l x = true \/ In x (expr_stores e).
Proof.
  induction e as [c|id|a IHa op b IHb|a IHa op b IHb|target e1 IH];
    simpl; intros g l v l' x Hev Hmem.
  - injection Hev as _ <-. left. exact Hmem.
  - destruct (load_name id g l); [discriminate|].
    injection Hev as _ <-. left. exact Hmem.
  - destruct (py_eval a g l) as [|[va l1]] eqn:Ea; [discriminate|].
    destruct (py_eval b g l1) as [|[vb l2]] eqn:Eb; [discriminate|].
    destruct (binop op va vb); [discriminate|].
    injection Hev as _ <-.
    destruct (IHb _ _ _ _ _ Eb Hmem) as [H1|Hb].
    + destruct (IHa _ _ _ _ _ Ea H1) as [H0|Ha]; [left; exact H0|].
      right. apply in_or_app. left. exact Ha.
    + right. apply in_or_app. right. exact Hb.
  - destruct (py_eval a g l) as [|[va l1]] eqn:Ea; [discriminate|].
    destruct (py_eval b g l1) as [|[vb l2]] eqn:Eb; [discriminate|].
    destruct (compare op va vb); [discriminate|].
    injection Hev as _ <-.
    destruct (IHb _ _ _ _ _ Eb Hmem) as [H1|Hb].
    + destruct (IHa _ _ _ _ _ Ea H1) as [H0|Ha]; [left; exact H0|].
      right. apply in_or_app. left. exact Ha.
    + right. apply in_or_app. right. exact Hb.
  - destruct (py_eval e1 g l) as [|[v1 l1]] eqn:E1; [discriminate|].
    injection Hev as _ <-.
    destruct (mem_set _ _ _ _ Hmem) as [->|H1]; [right; left; reflexivity|].
    destruct (IH _ _ _ _ _ E1 H1) as [H0|He]; [left; exact H0|].
    right. right. exact He.
Qed.

Lemma stores_app (b1 b2 : list stmt) :
  stores (b1 ++ b2)%list = (stores b1 ++ stores b2)%list.
Proof. unfold stores. apply flat_map_app. Qed.

Lemma py_exec_binds :
  forall fuel body g l l' x,
    py_exec fuel body g l = Some (inr l') ->
    Dict.mem l' x = true ->
    Dict.mem l x = true \/ In x (stores body).
Proof.
  induction fuel as [|fuel IH]; intros body g l l' x Hex Hmem.
  - destruct body; [|discriminate]. injection Hex as <-. left. exact Hmem.
  - destruct body as [|s rest]; [injection Hex as <-; left; exact Hmem|].
    change (stores (s :: rest)) with (stmt_stores s ++ stores rest)%list.
    simpl in Hex.
    destruct s as [e|targets e|target op e| |test b1 b2|test b1].
    + destruct (py_eval e g l) as [|[v l1]] eqn:Ee; [discriminate|].
      destruct (IH _ _ _ _ _ Hex Hmem) as [H1|Hr].
      * destruct (py_eval_binds _ _ _ _ _ _ Ee H1) as [H0|He];
          [left; exact H0|right; apply in_or_app; left; exact He].
      * right. apply in_or_app. right. exact Hr.
    + destruct (py_eval e g l) as [|[v l1]] eqn:Ee; [discriminate|].
      destruct (IH _ _ _ _ _ Hex Hmem) as [H1|Hr].
      * destruct (mem_set_all _ _ _ _ H1) as [Ht|H2].
        -- right. apply in_or_app. left. simpl. apply in_or_app. left. exact Ht.
        -- destruct (py_eval_binds _ _ _ _ _ _ Ee H2) as [H0|He];
             [left; exact H0|].
           right. apply in_or_app. left. simpl. apply in_or_app. right. exact He.
      * right. apply in_or_app. right. exact Hr.
    + destruct (load_name target g l) as [|old]; [discriminate|].
      destruct (py_eval e g l) as [|[v l1]] eqn:Ee; [discriminate|].
      destruct (binop op old v); [discriminate|].
      destruct (IH _ _ _ _ _ Hex Hmem) as [H1|Hr].
      * destruct (mem_set _ _ _ _ H1) as [->|H2].
        -- right. apply in_or_app. left. left. reflexivity.
        -- destruct (py_eval_binds _ _ _ _ _ _ Ee H2) as [H0|He];
             [left; exact H0|].
           right. apply in_or_app. left. right. exact He.
      * right. apply in_or_app. right. exact Hr.
    + destruct (IH _ _ _ _ _ Hex Hmem) as [H1|Hr]; [left; exact H1|].
      right. exact Hr.
    + destruct (py_eval test g l) as [|[c l1]] eqn:Ee; [discriminate|].
      destruct (IH _ _ _ _ _ Hex Hmem) as [H1|Hr].
      * destruct (py_eval_binds _ _ _ _ _ _ Ee H1) as [H0|He];
          [left; exact H0|].
        right. apply in_or_app. left. simpl. apply in_or_app. left. exact He.
      * right. rewrite stores_app in Hr. apply in_app_or in Hr as [Hb|Hr].
        -- apply in_or_app. left. simpl. apply in_or_app. right.
           apply in_or_app. destruct (truthy c); [left|right]; exact Hb.
        -- apply in_or_app. right. exact Hr.
    + destruct (py_eval test g l) as [|[c l1]] eqn:Ee; [discriminate|].
      assert (Hcond : Dict.mem l1 x = true ->
                      Dict.mem l x = true
                      \/ In x (stmt_stores (While test b1) ++ stores rest)%list).
      { intros H1. destruct (py_eval_binds _ _ _ _ _ _ Ee H1) as [H0|He];
          [left; exact H0|].
        right. apply in_or_app. left. simpl. apply in_or_app. left. exact He. }
      destruct (truthy c).
      * destruct (IH _ _ _ _ _ Hex Hmem) as [H1|Hr]; [exact (Hcond H1)|].
        right. rewrite stores_app in Hr. apply in_app_or in Hr as [Hb|Hr].
        -- apply in_or_app. left. simpl. apply in_or_app. right. exact Hb.
        -- exact Hr.
      * destruct (IH _ _ _ _ _ Hex Hmem) as [H1|Hr]; [exact (Hcond H1)|].
        right. apply in_or_app. right. exact Hr.
Qed.

(** ** More on the evaluation engine *)

Lemma value_stores (s : stmt) (e : expr) :
  value_of s = Some e -> incl (expr_stores e) (stmt_stores s).
Proof.
  destruct s; simpl; intros H; try discriminate; injection H as ->;
    intros x Hx.
  - exact Hx.
  - apply in_or_app. right. exact Hx.
  - right. exact Hx.
Qed.

Lemma targets_stores (s : stmt) :
  incl (match s with Assign targets _ => targets | _ => [] end) (stmt_stores s).
Proof.
  destruct s; intros x Hx; try destruct Hx.
  simpl. apply in_or_app. left. exact Hx.
Qed.

Lemma assigns_stores (e : expr) (x : string) :
  assigns e x = false -> ~ In x (expr_stores e).
Proof.
  induction e as [c|id|a IHa op b IHb|a IHa op b IHb|target e1 IH];
    simpl; intros H Hin; try contradiction.
  - apply orb_false_iff in H as [Ha Hb].
    apply in_app_or in Hin as [Hin|Hin]; [exact (IHa Ha Hin)|exact (IHb Hb Hin)].
  - apply orb_false_iff in H as [Ha Hb].
    apply in_app_or in Hin as [Hin|Hin]; [exact (IHa Ha Hin)|exact (IHb Hb Hin)].
  - apply orb_false_iff in H as [Ht He].
    destruct Hin as [->|Hin]; [|exact (IH He Hin)].
    rewrite String.eqb_refl in Ht. discriminate.
Qed.

Section EngineMore.

Variable permission : Type.
Variable get_permission : permission.
Variable parse : string -> permission -> outcome (string * list stmt).

(** On a source the parser turns into an empty program, [run] raises
    the [IndexError] of indexing the empty statement list; it is not
    wrapped in a [CodeError]. *)
Theorem run_empty_program fuel st code perm kwargs code' :
  parse code (effective_permission get_permission perm) = inr (code', []) ->
  run get_permission parse fuel st code perm kwargs
  = Some (inl (IndexError "list index out of range")).
Proof.
  intros Hparse. unfold run. rewrite Hparse. reflexivity.
Qed.


(** X2.  Every name in the map [run] returns is ['__result__'] or a name
    the program stores into: a binding of the context or of the keyword
    arguments that the program does not assign is not returned. *)
Theorem run_returns_program_names
  fuel st code perm kwargs code' code_block result x :
  parse code (effective_permission get_permission perm)
    = inr (code', code_block) ->
  run get_permission parse fuel st code perm kwargs = Some (inr result) ->
  Dict.mem result x = true ->
  x = RESULT_KEY \/ In x (stores code_block).
Proof.
  intros Hparse Hrun Hmem. unfold run in Hrun. rewrite Hparse in Hrun.
  destruct (last_item code_block) as [s|] eqn:Hlast; [|discriminate].
  destruct (value_of s) as [e|] eqn:Hval.
  - assert (Hs : stores code_block
                 = (stores (removelast code_block) ++ stmt_stores s)%list).
    { rewrite (last_item_some _ _ Hlast) at 1. rewrite stores_app.
      unfold stores at 2. simpl. rewrite app_nil_r. reflexivity. }
    destruct (py_exec fuel (removelast code_block) _ _) as [[err|l1]|] eqn:Hex;
      try discriminate.
    destruct (py_eval e _ l1) as [err|[v l2]] eqn:Hev; [discriminate|].
    injection Hrun as <-.
    destruct (mem_set_all _ _ _ _ Hmem) as [Ht|Hm];
      [|destruct (mem_set _ _ _ _ Hm) as [Hres|H2]].
    + right. rewrite Hs. apply in_or_app. right. apply (targets_stores s), Ht.
    + left. exact Hres.
    + right. rewrite Hs.
      destruct (py_eval_binds _ _ _ _ _ _ Hev H2) as [H1|He].
      * destruct (py_exec_binds _ _ _ _ _ _ Hex H1) as [H0|Hb];
          [discriminate|].
        apply in_or_app. left. exact Hb.
      * apply in_or_app. right. apply (value_stores s e Hval), He.
  - destruct (py_exec fuel code_block _ _) as [[err|l]|] eqn:Hex;
      try discriminate.
    destruct (last_item (Dict.values l)) as [v|]; [|discriminate].
    injection Hrun as <-.
    destruct (mem_set _ _ _ _ Hmem) as [->|H1]; [left; reflexivity|].
    destruct (py_exec_binds _ _ _ _ _ _ Hex H1) as [H0|Hb]; [discriminate|].
    right. exact Hb.
Qed.

(** X3.  When the last statement carries a value, a name bound by the
    statements before it is returned with the value it has there, unless
    it is ['__result__'], a target of the last statement, or stored into by
    the last statement's expression. *)
Theorem run_exposes_intermediate
  fuel st code perm kwargs code' body s e l1 v l2 x :
  parse code (effective_permission get_permission perm)
    = inr (code', (body ++ [s])%list) ->
  value_of s = Some e ->
  py_exec fuel body (ambient st kwargs) Dict.empty = Some (inr l1) ->
  py_eval e (ambient st kwargs) l1 = inr (v, l2) ->
  x <> RESULT_KEY ->
  ~ In x (match s with Assign targets _ => targets | _ => [] end) ->
  assigns e x = false ->
  exists result,
    run get_permission parse fuel st code perm kwargs = Some (inr result)
    /\ Dict.get result x = Dict.get l1 x.
Proof.
  intros Hparse Hval Hexec Heval Hne Hnt Has.
  rewrite (run_value_branch _ _ _ _ _ _ _ _ _ _ _ e Hparse Hval).
  rewrite Hexec, Heval. eexists. split; [reflexivity|].
  rewrite DictFacts.get_set_all_other.
  - exact (py_eval_keeps x e _ _ _ _ Heval Has).
  - intros [Heq|Hin]; [apply Hne; symmetry; exact Heq|exact (Hnt Hin)].
Qed.

(** X4.  Whatever the program, a map that [run] returns binds
    ['__result__']. *)
Theorem run_binds_result_key fuel st code perm kwargs result :
  run get_permission parse fuel st code perm kwargs = Some (inr result) ->
  exists v, Dict.get result RESULT_KEY = Some v.
Proof.
  unfold run.
  destruct (parse code (effective_permission get_permission perm))
    as [err|[code' code_block]]; [discriminate|].
  destruct (last_item code_block) as [s|]; [|discriminate].
  destruct (value_of s) as [e|].
  - destruct (py_exec fuel (removelast code_block) _ _) as [[err|l1]|];
      try discriminate.
    destruct (py_eval e _ l1) as [err|[v l2]]; [discriminate|].
    intros [= <-]. exists v.
    apply (DictFacts.get_set_all_in
             (RESULT_KEY :: match s with Assign targets _ => targets | _ => [] end)
             l2 RESULT_KEY v).
    left. reflexivity.
  - destruct (py_exec fuel code_block _ _) as [[err|l]|]; try discriminate.
    destruct (last_item (Dict.values l)) as [v|]; [|discriminate].
    intros [= <-]. exists v. apply DictFacts.get_set_same.
Qed.

End EngineMore.

(** ** More on the context store *)

Section ContextMore.

Variable A : Type.
Variable body : dict -> tls -> outcome A * tls.
Hypothesis body_scoped : keeps_frames_below body.

(** X6.  A block inside a block: the inner body runs on the current
    context updated with the outer bindings and then with the inner ones,
    above the outer frame; the nest ends as the inner body ends, and the
    store comes back with the stack it had before the outer block. *)
Theorem context_nested (kw1 kw2 : dict) (st : tls) :
  let c1 := Dict.update (get_context st) kw1 in
  let c2 := Dict.update c1 kw2 in
  context kw1 (fun _ st1 => context kw2 body st1) st
  = (fst (body c2 (Some (stack_of st ++ [c1; c2])%list)), Some (stack_of st)).
Proof.
  intros c1 c2.
  rewrite (context_runs_body A (fun _ st1 => context kw2 body st1)
             (context_nests A body body_scoped kw2)).
  fold c1. rewrite (context_runs_body A body body_scoped).
  simpl stack_of. rewrite get_context_top. fold c2.
  rewrite <- app_assoc. reflexivity.
Qed.

End ContextMore.

(** ** More on the isolation runner *)

Section SandboxMore.

Variable pipe_capacity : nat.
Variable R : Type.
Variable to_json_str : R -> outcome string.
Variable from_json_str : string -> outcome R.


(** X8.  Without a timeout, whatever [sandbox_call] returns or raises is
    what the worker sent: the worker has exited by itself, it was not
    terminated, and the call raises no [TimeoutError] of its own. *)
Theorem sandbox_call_without_timeout (func : callable R) (patience : nat)
  (r : outcome R) (st : status) :
  sandbox_call pipe_capacity to_json_str from_json_str func None patience
    = Some (r, st) ->
  st = Stopped
  /\ exists m,
      _call to_json_str func patience = Some m
      /\ (message_length m <= pipe_capacity)%nat
      /\ r = match m with
             | MsgExn e => inl e
             | MsgJson x => from_json_str x
             end.
Proof.
  unfold sandbox_call, join, exited, start, Process. simpl target. simpl queue.
  destruct (_call to_json_str func patience) as [m|]; [|discriminate].
  destruct (Nat.leb (message_length m) pipe_capacity) eqn:Hfit; [|discriminate].
  apply Nat.leb_le in Hfit. simpl.
  destruct m; intros [= <- <-]; (split; [reflexivity|]); eexists;
    repeat split; try reflexivity; exact Hfit.
Qed.

End SandboxMore.

Section SandboxRunMore.

Variable permission : Type.
Variable get_permission : permission.
Variable parse : string -> permission -> outcome (string * list stmt).
Variable pipe_capacity : nat.
Variable to_json_str : dict -> outcome string.
Variable from_json_str : string -> outcome dict.



End SandboxRunMore.

(** ** Instances *)

(** The empty source. *)
Lemma run_empty_program_witness :
  run tt parse_more 0 None "" None []
  = Some (inl (IndexError "list index out of range")).
Proof.
  apply (run_empty_program unit tt parse_more 0 None "" None [] "").
  reflexivity.
Defined.


(** The program [a = 1; b = (c := a + 1); b - 5] under a context that binds
    [z]: the name [c] of the returned map is one the program stores
    into. *)
Lemma run_returns_program_names_witness :
  "c" = RESULT_KEY
  \/ In "c" (stores
               [Assign ["a"] (Constant (VInt 1));
                Assign ["b"] (NamedExpr "c" (BinOp (Name "a") Add (Constant (VInt 1))));
                Expr (BinOp (Name "b") Sub (Constant (VInt 5)))]).
Proof.
  apply (run_returns_program_names unit tt parse_more
           3 (Some [[("z", VInt 0)]])
           ("a = 1" ++ nl ++ "b = (c := a + 1)" ++ nl ++ "b - 5") None []
           ("a = 1" ++ nl ++ "b = (c := a + 1)" ++ nl ++ "b - 5")
           _
           [("a", VInt 1); ("c", VInt 2); ("b", VInt 2); ("__result__", VInt (-3))]
           "c");
    reflexivity.
Defined.

(** The same program: [a] comes back with the value 1 it was given. *)
Lemma run_exposes_intermediate_witness :
  exists result,
    run tt parse_more 3 None
        ("a = 1" ++ nl ++ "b = (c := a + 1)" ++ nl ++ "b - 5") None []
    = Some (inr result)
    /\ Dict.get result "a" = Some (VInt 1).
Proof.
  apply (run_exposes_intermediate unit tt parse_more 3 None
           ("a = 1" ++ nl ++ "b = (c := a + 1)" ++ nl ++ "b - 5") None []
           ("a = 1" ++ nl ++ "b = (c := a + 1)" ++ nl ++ "b - 5")
           [Assign ["a"] (Constant (VInt 1));
            Assign ["b"] (NamedExpr "c" (BinOp (Name "a") Add (Constant (VInt 1))))]
           (Expr (BinOp (Name "b") Sub (Constant (VInt 5))))
           (BinOp (Name "b") Sub (Constant (VInt 5)))
           [("a", VInt 1); ("c", VInt 2); ("b", VInt 2)] (VInt (-3))
           [("a", VInt 1); ("c", VInt 2); ("b", VInt 2)] "a");
    try reflexivity.
  - discriminate.
  - intros [].
Defined.

(** The program [x = 5]. *)
Lemma run_binds_result_key_witness :
  exists v, Dict.get [("__result__", VInt 5); ("x", VInt 5)] RESULT_KEY = Some v.
Proof.
  apply (run_binds_result_key unit tt parse_sample 0 None "x = 5" None []).
  reflexivity.
Defined.

(** A block with [b=2] inside a block with [a=1], above a frame that binds
    [z]; the inner body writes through its alias and raises. *)
Lemma context_nested_witness :
  context [("a", VInt 1)]
          (fun _ st1 => context [("b", VInt 2)] body_sets_then_raises st1)
          (Some [[("z", VInt 0)]])
  = (inl (ValueError "x"), Some [[("z", VInt 0)]]).
Proof.
  exact (context_nested value body_sets_then_raises
           body_sets_then_raises_scoped
           [("a", VInt 1)] [("b", VInt 2)] (Some [[("z", VInt 0)]])).
Defined.


(** A callable that returns -42 after three units of time. *)
Lemma sandbox_call_without_timeout_witness :
  Stopped = Stopped
  /\ exists m,
      _call int_to_json_str (returns_after 3 (-42)) 3 = Some m
      /\ (message_length m <= PIPE_BUF_SIZE)%nat
      /\ inr (-42) = match m with
                     | MsgExn e => inl e
                     | MsgJson x => int_from_json_str x
                     end.
Proof.
  apply (sandbox_call_without_timeout PIPE_BUF_SIZE Z int_to_json_str
           int_from_json_str (returns_after 3 (-42)) 3 (inr (-42)) Stopped).
  reflexivity.
Defined.



(** ** The faults of [run] *)



